(** * PLAN.md guard: a model of [tools/ensure_plan_untracked.py]

    The script asks git two read-only questions about [PLAN.md], looks at the
    working tree, and turns the answers into a process exit status together
    with at most one line on standard error.

    The development follows the script top-down:
    - [PyStr]      Python text and the three [str] methods the script calls;
    - [Effects]    the outside world (git, the file system, standard error)
                   and a small monad threading a log of what was touched;
    - [PlanGuard]  the script's four functions, transcribed;
    - theorems about them. *)

From Stdlib Require Import ZArith NArith List Ascii String Lia.
From stdpp Require Import base decidable list gmap sets.

Local Open Scope Z_scope.

(* ===================================================================== *)
(** ** Python text *)
(* ===================================================================== *)

Module PyStr.

(** A Python [str] is a sequence of Unicode code points. *)
Definition char : Type := N.
Definition str : Type := list char.

(** Text literals of the script, written as Rocq strings. *)
Definition lit (s : string) : str := map N_of_ascii (list_ascii_of_string s).

(** [Py_UNICODE_ISSPACE]: the code points [str.strip()] and [str.split()]
    treat as whitespace. *)
Definition is_space (c : char) : bool :=
  ((0x09 <=? c) && (c <=? 0x0D) ||
   (0x1C <=? c) && (c <=? 0x20) ||
   (c =? 0x85) || (c =? 0xA0) || (c =? 0x1680) ||
   (0x2000 <=? c) && (c <=? 0x200A) ||
   (c =? 0x2028) || (c =? 0x2029) || (c =? 0x202F) ||
   (c =? 0x205F) || (c =? 0x3000))%N.

(** [Py_UNICODE_ISLINEBREAK]: the line boundaries of [str.splitlines()]. *)
Definition is_linebreak (c : char) : bool :=
  ((0x0A <=? c) && (c <=? 0x0D) ||
   (0x1C <=? c) && (c <=? 0x1E) ||
   (c =? 0x85) || (c =? 0x2028) || (c =? 0x2029))%N.

Definition CR : char := 0x0D%N.
Definition LF : char := 0x0A%N.

(** [s.splitlines()]: cut at every line boundary, boundaries dropped, CR LF
    counted as one boundary, and no empty last line after a final
    boundary. *)
Fixpoint splitlines (s : str) : list str :=
  match s with
  | [] => []
  | c :: rest =>
      if is_linebreak c then
        [] :: match rest with
              | d :: rest' =>
                  if ((c =? CR) && (d =? LF))%N then splitlines rest'
                  else splitlines rest
              | [] => []
              end
      else
        match splitlines rest with
        | [] => [[c]]
        | line :: lines => (c :: line) :: lines
        end
  end.

Fixpoint drop_while (p : char → bool) (s : str) : str :=
  match s with
  | [] => []
  | c :: rest => if p c then drop_while p rest else s
  end.

Fixpoint take_while (p : char → bool) (s : str) : str :=
  match s with
  | [] => []
  | c :: rest => if p c then c :: take_while p rest else []
  end.

Definition lstrip (s : str) : str := drop_while is_space s.
Definition rstrip (s : str) : str := rev (drop_while is_space (rev s)).

(** [s.strip()]: whitespace removed at both ends. *)
Definition strip (s : str) : str := rstrip (lstrip s).

(** [s.split()]: the maximal runs of non-whitespace, in order. *)
Fixpoint split (s : str) : list str :=
  match s with
  | [] => []
  | c :: rest =>
      if is_space c then split rest
      else
        match rest with
        | d :: _ =>
            if is_space d then [c] :: split rest
            else
              match split rest with
              | word :: words => (c :: word) :: words
              | [] => [[c]]
              end
        | [] => [[c]]
        end
  end.

(** The leading whitespace-delimited token of a line as the specification
    words it: skip the leading whitespace, then read up to the next
    whitespace.  A line with nothing but whitespace has none. *)
Definition leading_token (line : str) : option str :=
  match drop_while is_space line with
  | [] => None
  | rest => Some (take_while (λ c, negb (is_space c)) rest)
  end.

End PyStr.

Import PyStr.

(* ===================================================================== *)
(** ** The outside world and the effects of the script *)
(* ===================================================================== *)

Module Effects.

(** What [subprocess.run(..., capture_output=True, text=True)] hands back. *)
Record CompletedProcess : Type := {
  returncode : Z;
  stdout : str;
  stderr : str;
}.

(** The state outside the process, fixed for the time of one run: what git
    answers to each argument vector, and whether [PLAN_PATH] is there.  A
    missing git executable makes [subprocess.run] fail before the script
    decides anything; that is not modelled. *)
Record world : Type := {
  git_reply : list str → CompletedProcess;
  plan_on_disk : bool;
}.

(** What the process did to the outside, in order. *)
Inductive event : Type :=
  | EvRun (argv : list str)      (* subprocess.run(argv, cwd=REPO_ROOT) *)
  | EvExists                     (* PLAN_PATH.exists() *)
  | EvWrite (text : str).        (* sys.stderr.write(text) *)

Inductive exn : Type :=
  | IndexError.

Inductive result (A : Type) : Type :=
  | Return (a : A)
  | Raise (e : exn).
Arguments Return {A} a.
Arguments Raise {A} e.

(** A computation reads the world, extends the log, and returns or raises. *)
Definition M (A : Type) : Type := world → list event → result A * list event.

#[global] Instance M_ret : MRet M := λ A a _ log, (Return a, log).
#[global] Instance M_bind : MBind M := λ A B f m w log,
  match m w log with
  | (Return a, log') => f a w log'
  | (Raise e, log') => (Raise e, log')
  end.

Definition emit (e : event) : M unit := λ _ log, (Return tt, log ++ [e]).
Definition ask {A} (f : world → A) : M A := λ w log, (Return (f w), log).
Definition lift {A} (r : result A) : M A := λ _ log, (r, log).

(** [parts[i]] on a Python list. *)
Definition index {A} (l : list A) (i : nat) : result A :=
  match l !! i with
  | Some x => Return x
  | None => Raise IndexError
  end.

(** A run from an empty log: the value, and what was done. *)
Definition value {A} (m : M A) (w : world) : result A := (m w []).1.
Definition effects {A} (m : M A) (w : world) : list event := (m w []).2.

(** The texts written to standard error, in order. *)
Definition written (log : list event) : list str :=
  omap (λ e, match e with EvWrite text => Some text | _ => None end) log.

End Effects.

Import Effects.

(* ===================================================================== *)
(** ** The script *)
(* ===================================================================== *)

Module PlanGuard.

(** [str(PLAN_PATH.name)] *)
Definition PLAN_NAME : str := lit "PLAN.md".

Definition run_git_command (args : list str) : M CompletedProcess :=
  emit (EvRun (lit "git" :: args)) ;;
  ask (λ w, git_reply w args).

Definition LS_FILES : list str :=
  [lit "ls-files"; lit "--error-unmatch"; PLAN_NAME].

Definition plan_is_tracked : M bool :=
  tracked ← run_git_command LS_FILES;
  mret (returncode tracked =? 0).

Definition DIFF_CACHED : list str :=
  [lit "diff"; lit "--cached"; lit "--name-status"; lit "--"; PLAN_NAME].

(** The body of [for line in staged.stdout.splitlines()], over the lines
    still to come, with the set built so far. *)
Fixpoint collect_statuses (lines : list str) (statuses : gset str)
  : result (gset str) :=
  match lines with
  | [] => Return statuses
  | line :: lines =>
      let line := strip line in
      if decide (line = []) then collect_statuses lines statuses
      else
        let parts := split line in
        match index parts 0 with
        | Return status => collect_statuses lines (statuses ∪ {[status]})
        | Raise e => Raise e
        end
  end.

Definition staged_status_codes : M (gset str) :=
  staged ← run_git_command DIFF_CACHED;
  lift (collect_statuses (splitlines (stdout staged)) ∅).

Definition MSG_TRACKED : str :=
  lit "PLAN.md is tracked in git; remove it with " ++
  lit "`git rm --cached PLAN.md` and ensure it stays ignored." ++ [LF].

Definition MSG_STAGED : str :=
  lit "PLAN.md has staged changes; ensure it remains untracked before committing."
  ++ [LF].

Definition MSG_MISSING : str :=
  lit "PLAN.md is missing from the working tree; create the planning scratchpad " ++
  lit "if the process requires it." ++ [LF].

Definition stderr_write (text : str) : M unit := emit (EvWrite text).
Definition plan_path_exists : M bool := emit EvExists ;; ask plan_on_disk.

Definition main : M Z :=
  tracked ← plan_is_tracked;
  staged ← staged_status_codes;
  if tracked : bool then
    stderr_write MSG_TRACKED ;;
    mret 1
  else
    let invalid_statuses := staged ∖ {[lit "D"]} in
    if decide (invalid_statuses ≠ ∅) then
      stderr_write MSG_STAGED ;;
      mret 2
    else if decide (lit "D" ∈ staged) then
      mret 0
    else
      present ← plan_path_exists;
      if negb present then
        stderr_write MSG_MISSING ;;
        mret 3
      else
        mret 0.

(** The five ways out of [main], under the names the specification gives
    them, in the order of its table. *)
Inductive outcome : Type :=
  | OK
  | OK_STAGED_DELETE
  | TRACKED
  | INVALID_STAGED_CHANGE
  | MISSING.

(** The integer each [return] statement of [main] carries. *)
Definition result_code (o : outcome) : Z :=
  match o with
  | OK => 0
  | OK_STAGED_DELETE => 0
  | TRACKED => 1
  | INVALID_STAGED_CHANGE => 2
  | MISSING => 3
  end.

(** [main] again, statement for statement, each [return] answering with its
    name instead of its integer: the two [return 0] are told apart. *)
Definition evaluate : M outcome :=
  tracked ← plan_is_tracked;
  staged ← staged_status_codes;
  if tracked : bool then
    stderr_write MSG_TRACKED ;;
    mret TRACKED
  else
    let invalid_statuses := staged ∖ {[lit "D"]} in
    if decide (invalid_statuses ≠ ∅) then
      stderr_write MSG_STAGED ;;
      mret INVALID_STAGED_CHANGE
    else if decide (lit "D" ∈ staged) then
      mret OK_STAGED_DELETE
    else
      present ← plan_path_exists;
      if negb present then
        stderr_write MSG_MISSING ;;
        mret MISSING
      else
        mret OK.

(** Running the script twice in a row against the same world. *)
Definition main_twice : M (Z * Z) :=
  first ← main;
  second ← main;
  mret (first, second).

End PlanGuard.

Import PlanGuard.

(** The distinct leading tokens of the non-empty pieces [str.splitlines]
    cuts the query output into. *)
Definition spec_status_codes (out : str) : gset str :=
  list_to_set (omap leading_token (filter (λ line, line ≠ []) (splitlines out))).

(** The two git invocations as they show in the log. *)
Definition ASKED_LS_FILES : event := EvRun (lit "git" :: LS_FILES).
Definition ASKED_DIFF : event := EvRun (lit "git" :: DIFF_CACHED).

(** A text that is one line: a body free of line boundaries, then LF. *)
Definition one_line (text : str) : Prop :=
  ∃ body, text = body ++ [LF] ∧ splitlines text = [body].

(** A world from the three things the script looks at: the exit status of
    [git ls-files], the output of [git diff --cached], and the presence of
    the file. *)
Definition world_of (ls_files_status : Z) (diff_out : str) (on_disk : bool)
  : world :=
  {| git_reply := λ args,
       if decide (args = LS_FILES)
       then {| returncode := ls_files_status; stdout := []; stderr := [] |}
       else {| returncode := 0; stdout := diff_out; stderr := [] |};
     plan_on_disk := on_disk |}.

Definition TAB : char := 0x09%N.

(** One line of [git diff --cached --name-status] output. *)
Definition name_status_line (status : str) : str :=
  status ++ [TAB] ++ PLAN_NAME ++ [LF].

(** One line of name-status output in general: the status, a tab, the rest
    of the line (one path, or two for a rename), and the line end, LF or
    CR LF. *)
Record entry : Type := {
  entry_status : str;
  entry_rest : str;
  entry_crlf : bool;
}.

Definition render_entry (e : entry) : str :=
  entry_status e ++ [TAB] ++ entry_rest e
  ++ (if entry_crlf e then [CR; LF] else [LF]).

Definition name_status_output (entries : list entry) : str :=
  concat (map render_entry entries).

(** A status git can print: not empty and free of whitespace; the rest of
    the line stays on the line. *)
Definition well_formed_entry (e : entry) : Prop :=
  entry_status e ≠ []
  ∧ Forall (λ c, is_space c = false) (entry_status e)
  ∧ Forall (λ c, is_linebreak c = false) (entry_rest e).

(** The lines of a text as the specification speaks of them: the text cut
    at every LF and nowhere else.  What follows the last LF, be it empty,
    is the last line. *)
Fixpoint lf_lines (s : str) : list str :=
  match s with
  | [] => [[]]
  | c :: rest =>
      if (c =? LF)%N then [] :: lf_lines rest
      else
        match lf_lines rest with
        | line :: lines => (c :: line) :: lines
        | [] => [[c]]
        end
  end.

(** Lines put back together, an LF between any two. *)
Fixpoint join_lf (lines : list str) : str :=
  match lines with
  | [] => []
  | line :: lines =>
      match lines with
      | [] => line
      | _ :: _ => line ++ LF :: join_lf lines
      end
  end.





(** U+2028 LINE SEPARATOR, and an output of one line that holds it. *)
Definition LINE_SEPARATOR : char := 0x2028%N.

Definition line_separator_output : str :=
  lit "D" ++ [LINE_SEPARATOR] ++ lit "A" ++ [TAB] ++ PLAN_NAME ++ [LF].

(** The output for a deletion and a modification, two lines. *)
Definition two_line_output : str :=
  name_status_line (lit "D") ++ name_status_line (lit "M").

(* ===================================================================== *)
(** ** The text primitives on examples *)
(* ===================================================================== *)

Example splitlines_ex1 :
  splitlines (lit "D" ++ [TAB] ++ lit "PLAN.md" ++ [LF]) = [lit "D" ++ [TAB] ++ lit "PLAN.md"].
Proof. reflexivity. Qed.
Example splitlines_ex2 :
  splitlines (lit "a" ++ [CR; LF; LF] ++ lit "b" ++ [CR] ++ lit "c") = [lit "a"; []; lit "b"; lit "c"].
Proof. reflexivity. Qed.
Example splitlines_ex3 : splitlines [LF] = [[]].
Proof. reflexivity. Qed.
Example split_ex1 : split (lit "  A  PLAN.md x ") = [lit "A"; lit "PLAN.md"; lit "x"].
Proof. reflexivity. Qed.
Example strip_ex1 : strip (lit "  A  b ") = lit "A  b".
Proof. reflexivity. Qed.

(* ===================================================================== *)
(** ** Facts about the text primitives *)
(* ===================================================================== *)

Section TextFacts.

Implicit Types (s line : str) (p : char → bool).

Lemma drop_while_nil p s : drop_while p s = [] ↔ Forall (λ c, p c = true) s.
Proof.
  induction s as [|c s IH]; simpl.
  - split; auto.
  - destruct (p c) eqn:Hc.
    + rewrite IH. split; [by constructor | by inversion 1].
    + split; [done | inversion 1; congruence].
Qed.

Lemma drop_while_head p s c rest : drop_while p s = c :: rest → p c = false.
Proof.
  induction s as [|d s IH]; simpl; [done|].
  destruct (p d) eqn:Hd; [done | congruence].
Qed.

Lemma drop_while_idemp p s : drop_while p (drop_while p s) = drop_while p s.
Proof.
  destruct (drop_while p s) as [|c rest] eqn:E; [done|].
  simpl. by rewrite (drop_while_head _ _ _ _ E).
Qed.

(** Dropping from the front of [s ++ t] stops inside [s] as soon as [s]
    holds a character that stays. *)
Lemma drop_while_app p s t :
  drop_while p s ≠ [] → drop_while p (s ++ t) = drop_while p s ++ t.
Proof.
  induction s as [|c s IH]; simpl; [done|].
  destruct (p c); [done | by intros _].
Qed.

Lemma take_while_app_stop p s t :
  Forall (λ c, p c = false) t → take_while p (s ++ t) = take_while p s.
Proof.
  intros Ht. induction s as [|c s IH]; simpl.
  - destruct Ht as [|d t Hd _]; simpl; [done | by rewrite Hd].
  - by rewrite IH.
Qed.

(** [rstrip] cuts off a whitespace suffix and nothing else. *)
Lemma rstrip_split s :
  ∃ ws, s = rstrip s ++ ws ∧ Forall (λ c, is_space c = true) ws.
Proof.
  unfold rstrip. generalize (rev_involutive s). generalize (rev s) as r.
  intros r <-.
  induction r as [|c r IH]; simpl.
  - exists []. by split.
  - destruct (is_space c) eqn:Hc.
    + destruct IH as (ws & Hr & Hws). exists (ws ++ [c]). split.
      * rewrite app_assoc, <- Hr. done.
      * apply Forall_app. split; [done | by constructor].
    + exists []. simpl. rewrite app_nil_r. by split.
Qed.

Lemma rstrip_nil s : rstrip s = [] ↔ Forall (λ c, is_space c = true) s.
Proof.
  unfold rstrip. split.
  - intros H. apply (f_equal (@rev _)) in H. rewrite rev_involutive in H.
    simpl in H. apply drop_while_nil in H.
    rewrite <- (rev_involutive s). by apply Forall_rev.
  - intros H. apply Forall_rev in H. apply drop_while_nil in H.
    by rewrite H.
Qed.

Lemma strip_nil line : strip line = [] ↔ drop_while is_space line = [].
Proof.
  unfold strip, lstrip. rewrite rstrip_nil. split.
  - intros H. destruct (drop_while is_space line) as [|c rest] eqn:E; [done|].
    apply drop_while_head in E. inversion H; congruence.
  - intros ->. constructor.
Qed.

Lemma leading_token_none line :
  leading_token line = None ↔ drop_while is_space line = [].
Proof. unfold leading_token. by destruct (drop_while is_space line). Qed.

Lemma leading_token_rstrip s : leading_token (rstrip s) = leading_token s.
Proof.
  destruct (rstrip_split s) as (ws & Hs & Hws).
  destruct (drop_while is_space (rstrip s)) as [|c rest] eqn:E.
  - (* nothing but whitespace on either side *)
    transitivity (@None str); [by apply leading_token_none | symmetry].
    apply leading_token_none, drop_while_nil.
    rewrite Hs. apply Forall_app. split; [|done].
    apply drop_while_nil in E. by apply rstrip_nil, rstrip_nil.
  - transitivity (leading_token (rstrip s ++ ws)); [|by rewrite <- Hs].
    unfold leading_token.
    rewrite drop_while_app by (by rewrite E). rewrite E. simpl. f_equal.
    rewrite (drop_while_head _ _ _ _ E). simpl. f_equal.
    symmetry. apply take_while_app_stop.
    eapply Forall_impl; [exact Hws|]. by intros d ->.
Qed.

Lemma leading_token_strip line : leading_token (strip line) = leading_token line.
Proof.
  unfold strip. rewrite leading_token_rstrip.
  unfold leading_token, lstrip. by rewrite drop_while_idemp.
Qed.

(** The first element of [s.split()] is the leading token of [s]. *)
Lemma head_split s : head (split s) = leading_token s.
Proof.
  induction s as [|c rest IH]; [done|].
  unfold leading_token. simpl. destruct (is_space c) eqn:Hc; [exact IH|].
  simpl. rewrite Hc. simpl.
  destruct rest as [|d rest]; [done|].
  simpl take_while. destruct (is_space d) eqn:Hd; [reflexivity|].
  revert IH. unfold leading_token. simpl drop_while. rewrite Hd.
  simpl take_while. rewrite Hd. cbn [negb].
  destruct (split (d :: rest)) as [|word words]; [done|].
  simpl. by intros [= ->].
Qed.

(** What [parts[0]] gives on a stripped line that is not empty. *)
Lemma first_part_of_stripped line :
  strip line ≠ [] →
  ∃ status, leading_token line = Some status
            ∧ index (split (strip line)) 0 = Return status.
Proof.
  intros Hne. unfold index.
  rewrite <- head_lookup, head_split, leading_token_strip.
  destruct (leading_token line) as [status|] eqn:E; [by exists status|].
  apply leading_token_none, strip_nil in E. done.
Qed.

End TextFacts.

(* ===================================================================== *)
(** ** Running the script *)
(* ===================================================================== *)

Section Runs.

Implicit Types (w : world) (log : list event) (statuses : gset str).

(** The loop never raises, and adds the leading token of every line that
    has one. *)
Lemma collect_statuses_run lines statuses :
  collect_statuses lines statuses
  = Return (statuses ∪ list_to_set (omap leading_token lines)).
Proof.
  revert statuses. induction lines as [|line lines IH]; intros statuses; simpl.
  - by rewrite (right_id_L ∅ (∪)).
  - destruct (decide (strip line = [])) as [Hnil|Hne].
    + apply strip_nil, leading_token_none in Hnil. rewrite Hnil. apply IH.
    + destruct (first_part_of_stripped line Hne) as (status & -> & ->).
      rewrite IH. simpl. by rewrite (assoc_L (∪)).
Qed.

Lemma omap_leading_token_nonempty (lines : list str) :
  omap leading_token (filter (λ line, line ≠ []) lines)
  = omap leading_token lines.
Proof.
  unfold omap. induction lines as [|line lines IH]; [done|].
  destruct line as [|c line].
  - by rewrite filter_cons_False by (by intros []).
  - rewrite filter_cons_True by done. simpl.
    destruct (leading_token (c :: line)); [f_equal|]; exact IH.
Qed.

Lemma run_plan_is_tracked w log :
  plan_is_tracked w log
  = (Return (returncode (git_reply w LS_FILES) =? 0), log ++ [ASKED_LS_FILES]).
Proof. reflexivity. Qed.

Lemma run_staged_status_codes w log :
  staged_status_codes w log
  = (Return (spec_status_codes (stdout (git_reply w DIFF_CACHED))),
     log ++ [ASKED_DIFF]).
Proof.
  unfold staged_status_codes, run_git_command, spec_status_codes.
  unfold mbind, M_bind, emit, ask, lift. simpl.
  rewrite collect_statuses_run, omap_leading_token_nonempty.
  by rewrite (left_id_L ∅ (∪)).
Qed.

Lemma value_plan_is_tracked w :
  value plan_is_tracked w = Return (returncode (git_reply w LS_FILES) =? 0).
Proof. reflexivity. Qed.

Lemma value_staged_status_codes w :
  value staged_status_codes w
  = Return (spec_status_codes (stdout (git_reply w DIFF_CACHED))).
Proof. unfold value. by rewrite run_staged_status_codes. Qed.

(** What a whole run of [evaluate] comes to, by cases on the three things it
    looks at. *)
Lemma run_evaluate w log :
  evaluate w log =
    let staged := spec_status_codes (stdout (git_reply w DIFF_CACHED)) in
    let asked := log ++ [ASKED_LS_FILES] ++ [ASKED_DIFF] in
    if returncode (git_reply w LS_FILES) =? 0 then
      (Return TRACKED, asked ++ [EvWrite MSG_TRACKED])
    else if decide (staged ∖ {[lit "D"]} ≠ ∅) then
      (Return INVALID_STAGED_CHANGE, asked ++ [EvWrite MSG_STAGED])
    else if decide (lit "D" ∈ staged) then
      (Return OK_STAGED_DELETE, asked)
    else if plan_on_disk w then
      (Return OK, asked ++ [EvExists])
    else
      (Return MISSING, asked ++ [EvExists] ++ [EvWrite MSG_MISSING]).
Proof.
  unfold evaluate, mbind, M_bind.
  rewrite run_plan_is_tracked, run_staged_status_codes.
  cbv zeta. rewrite !app_assoc.
  destruct (returncode (git_reply w LS_FILES) =? 0); [reflexivity|].
  repeat case_decide; try reflexivity.
  unfold plan_path_exists, mbind, M_bind, emit, ask. simpl.
  destruct (plan_on_disk w); reflexivity.
Qed.

(** [main] is [evaluate] followed by the integer of the outcome. *)
Lemma main_evaluate w log :
  main w log = (o ← evaluate; mret (result_code o)) w log.
Proof.
  unfold main, evaluate, mbind, M_bind.
  rewrite run_plan_is_tracked, run_staged_status_codes.
  destruct (returncode (git_reply w LS_FILES) =? 0); [reflexivity|].
  cbv zeta. repeat case_decide; try reflexivity.
  unfold plan_path_exists, mbind, M_bind, emit, ask. simpl.
  destruct (plan_on_disk w); reflexivity.
Qed.

Lemma run_main w log :
  main w log =
    match evaluate w log with
    | (Return o, log') => (Return (result_code o), log')
    | (Raise e, log') => (Raise e, log')
    end.
Proof. rewrite main_evaluate. unfold mbind, M_bind. by destruct (evaluate w log) as [[o|e] log']. Qed.

(** A run only appends to the log it is given, and what it appends and
    returns does not depend on that log. *)
Lemma evaluate_frame w log :
  evaluate w log = (value evaluate w, log ++ effects evaluate w).
Proof.
  unfold value, effects. rewrite !run_evaluate. cbv zeta.
  destruct (returncode (git_reply w LS_FILES) =? 0);
    [|repeat case_decide; [| |destruct (plan_on_disk w)]];
    simpl; by rewrite <- ?app_assoc.
Qed.

Lemma main_frame w log :
  main w log = (value main w, log ++ effects main w).
Proof.
  unfold value, effects. rewrite !run_main, evaluate_frame.
  rewrite (evaluate_frame w []). simpl.
  by destruct (value evaluate w).
Qed.

Lemma value_main w :
  value main w =
    match value evaluate w with
    | Return o => Return (result_code o)
    | Raise e => Raise e
    end.
Proof.
  unfold value. rewrite run_main. by destruct (evaluate w []) as [[o|e] log'].
Qed.

Lemma effects_main w : effects main w = effects evaluate w.
Proof.
  unfold effects. rewrite run_main. by destruct (evaluate w []) as [[o|e] log'].
Qed.

End Runs.

(* ===================================================================== *)
(** ** The scenarios of the specification, run *)
(* ===================================================================== *)

Example scenario_A :
  main (world_of 1 [] true) []
  = (Return 0, [ASKED_LS_FILES; ASKED_DIFF; EvExists]).
Proof. vm_compute. reflexivity. Qed.

Example scenario_B :
  main (world_of 0 (name_status_line (lit "M")) false) []
  = (Return 1, [ASKED_LS_FILES; ASKED_DIFF; EvWrite MSG_TRACKED]).
Proof. vm_compute. reflexivity. Qed.

Example scenario_C :
  main (world_of 1 (name_status_line (lit "M")) true) []
  = (Return 2, [ASKED_LS_FILES; ASKED_DIFF; EvWrite MSG_STAGED]).
Proof. vm_compute. reflexivity. Qed.

Example scenario_D :
  main (world_of 1 (name_status_line (lit "D")) false) []
  = (Return 0, [ASKED_LS_FILES; ASKED_DIFF]).
Proof. vm_compute. reflexivity. Qed.

Example scenario_E :
  main (world_of 1 [] false) []
  = (Return 3, [ASKED_LS_FILES; ASKED_DIFF; EvExists; EvWrite MSG_MISSING]).
Proof. vm_compute. reflexivity. Qed.

Example staged_blank_lines :
  value staged_status_codes
    (world_of 1 ([LF] ++ lit "  " ++ [CR; LF] ++ name_status_line (lit "A")
                 ++ [TAB; LF] ++ name_status_line (lit "A")) true)
  = Return {[lit "A"]}.
Proof. vm_compute. reflexivity. Qed.

(* ===================================================================== *)
(** ** What the script observes, read back from a run *)
(* ===================================================================== *)

Section Observations.

Implicit Types (w : world) (staged : gset str).

Lemma tracked_inv w b :
  value plan_is_tracked w = Return b →
  (returncode (git_reply w LS_FILES) =? 0) = b.
Proof. rewrite value_plan_is_tracked. by intros [= ->]. Qed.

Lemma staged_inv w staged :
  value staged_status_codes w = Return staged →
  spec_status_codes (stdout (git_reply w DIFF_CACHED)) = staged.
Proof. rewrite value_staged_status_codes. by intros [= ->]. Qed.

Lemma messages_one_line :
  one_line MSG_TRACKED ∧ one_line MSG_STAGED ∧ one_line MSG_MISSING.
Proof.
  repeat split.
  - exists (removelast MSG_TRACKED). split; vm_compute; reflexivity.
  - exists (removelast MSG_STAGED). split; vm_compute; reflexivity.
  - exists (removelast MSG_MISSING). split; vm_compute; reflexivity.
Qed.

(** Only ["D"] or nothing staged: no status is left once ["D"] is taken out. *)
Lemma no_invalid_status staged :
  staged ∖ {[lit "D"]} = ∅ ↔ staged = ∅ ∨ staged = {[lit "D"]}.
Proof.
  split.
  - intros H. destruct (decide (lit "D" ∈ staged)) as [Hin|Hout].
    + right. apply set_eq. intros t. rewrite elem_of_singleton. split.
      * intros Ht. destruct (decide (t = lit "D")) as [->|Hne]; [done|].
        assert (t ∈ staged ∖ {[lit "D"]}) as Hbad
          by (apply elem_of_difference; by rewrite elem_of_singleton).
        rewrite H in Hbad. by apply not_elem_of_empty in Hbad.
      * by intros ->.
    + left. apply set_eq. intros t. split; [|by intros ?%not_elem_of_empty].
      intros Ht.
      assert (t ∈ staged ∖ {[lit "D"]}) as Hbad.
      { apply elem_of_difference. rewrite elem_of_singleton.
        split; [done | by intros ->]. }
      by rewrite H in Hbad.
  - intros [-> | ->].
    + apply set_eq. intros t. rewrite elem_of_difference.
      split; [by intros [?%not_elem_of_empty _] | by intros ?%not_elem_of_empty].
    + apply set_eq. intros t. rewrite elem_of_difference, elem_of_singleton.
      split; [by intros [? ?] | by intros ?%not_elem_of_empty].
Qed.

Lemma invalid_status_iff staged :
  staged ∖ {[lit "D"]} ≠ ∅ ↔ ∃ t, t ∈ staged ∧ t ≠ lit "D".
Proof.
  split.
  - intros Hne. apply set_choose_L in Hne as [t Ht].
    apply elem_of_difference in Ht as [Hin Hnot].
    exists t. split; [done|]. by rewrite elem_of_singleton in Hnot.
  - intros (t & Hin & Hne) Hempty.
    assert (t ∈ staged ∖ {[lit "D"]}) as Hbad
      by (apply elem_of_difference; by rewrite elem_of_singleton).
    rewrite Hempty in Hbad. by apply not_elem_of_empty in Hbad.
Qed.

End Observations.

(* ===================================================================== *)
(** ** The decision, rule by rule *)
(* ===================================================================== *)

(** Unfold a run from the empty log down to the case split of
    [run_evaluate]. *)
Ltac from_run :=
  rewrite ?value_main, ?effects_main; unfold value, effects;
  rewrite ?run_evaluate; cbv zeta.

(** Settle the branch conditions of [run_evaluate] from the context. *)
Ltac pick_branch :=
  repeat match goal with
  | |- context [decide ?P] => destruct (decide P); try done
  end.

(** An event that is none of the listed ones is not in the list. *)
Ltac not_in_log :=
  let Hin := fresh "Hin" in
  intros Hin;
  repeat (apply elem_of_cons in Hin as [Hin|Hin]; [discriminate|]);
  by apply elem_of_nil in Hin.

(** C1. Whenever the index query says the file is tracked, the outcome is
    TRACKED and the exit status 1, whatever is staged and whether or not the
    file is on disk.  The run consists of the two git queries and the one
    diagnostic: none of the later tests is reached, the working tree is not
    looked at. *)
Theorem tracked_wins (w : world) :
  value plan_is_tracked w = Return true →
  value evaluate w = Return TRACKED
  ∧ value main w = Return 1
  ∧ effects main w = [ASKED_LS_FILES; ASKED_DIFF; EvWrite MSG_TRACKED]
  ∧ EvExists ∉ effects main w.
Proof.
  intros Htracked%tracked_inv.
  from_run. rewrite Htracked. simpl.
  repeat split. not_in_log.
Qed.

Lemma tracked_wins_witness :
  let w := world_of 0 (name_status_line (lit "M")) false in
  value plan_is_tracked w = Return true
  ∧ value main w = Return 1.
Proof.
  split; [reflexivity|].
  apply (tracked_wins (world_of 0 (name_status_line (lit "M")) false)).
  reflexivity.
Defined.

(** C2. When the file is not tracked and the staged set holds some status
    other than ["D"], the outcome is INVALID_STAGED_CHANGE and the exit
    status 2; whether ["D"] is in the set as well makes no difference. *)
Theorem other_staged_status_is_invalid (w : world) (staged : gset str) (status : str) :
  value plan_is_tracked w = Return false →
  value staged_status_codes w = Return staged →
  status ∈ staged →
  status ≠ lit "D" →
  value evaluate w = Return INVALID_STAGED_CHANGE
  ∧ value main w = Return 2
  ∧ written (effects main w) = [MSG_STAGED].
Proof.
  intros Htracked%tracked_inv Hstaged%staged_inv Hin Hne.
  assert (staged ∖ {[lit "D"]} ≠ ∅) as Hbad
    by (apply invalid_status_iff; eauto).
  from_run. rewrite Htracked, Hstaged. pick_branch.
Qed.

Lemma other_staged_status_is_invalid_witness :
  let w := world_of 1 (name_status_line (lit "D") ++ name_status_line (lit "M")) true in
  value plan_is_tracked w = Return false
  ∧ value staged_status_codes w = Return {[lit "D"; lit "M"]}
  ∧ value main w = Return 2.
Proof.
  split; [reflexivity|]. split; [vm_compute; reflexivity|].
  apply (other_staged_status_is_invalid
           (world_of 1 (name_status_line (lit "D") ++ name_status_line (lit "M")) true)
           {[lit "D"; lit "M"]} (lit "M")).
  - reflexivity.
  - vm_compute; reflexivity.
  - apply elem_of_union_r, elem_of_singleton. reflexivity.
  - discriminate.
Defined.

(** C3. When the file is not tracked and exactly ["D"] is staged, the
    outcome is OK_STAGED_DELETE, the exit status 0, nothing is written, and
    the working tree is not looked at: the file may or may not be there. *)
Theorem staged_delete_is_ok (w : world) :
  value plan_is_tracked w = Return false →
  value staged_status_codes w = Return {[lit "D"]} →
  value evaluate w = Return OK_STAGED_DELETE
  ∧ value main w = Return 0
  ∧ written (effects main w) = []
  ∧ effects main w = [ASKED_LS_FILES; ASKED_DIFF]
  ∧ EvExists ∉ effects main w.
Proof.
  intros Htracked%tracked_inv Hstaged%staged_inv.
  assert (¬ ({[lit "D"]} ∖ {[lit "D"]} ≠ (∅ : gset str))) as Hvalid
    by (intros H; apply H, no_invalid_status; by right).
  assert (lit "D" ∈ ({[lit "D"]} : gset str)) as HD
    by (by apply elem_of_singleton).
  from_run. rewrite Htracked, Hstaged. pick_branch.
  simpl. repeat split. not_in_log.
Qed.

Lemma staged_delete_is_ok_witness :
  let w := world_of 1 (name_status_line (lit "D")) false in
  value plan_is_tracked w = Return false
  ∧ value staged_status_codes w = Return {[lit "D"]}
  ∧ plan_on_disk w = false
  ∧ value main w = Return 0.
Proof.
  split; [reflexivity|]. split; [vm_compute; reflexivity|].
  split; [reflexivity|].
  apply (staged_delete_is_ok (world_of 1 (name_status_line (lit "D")) false)).
  - reflexivity.
  - vm_compute; reflexivity.
Defined.

(** C4. Not tracked, nothing staged, file on disk: outcome OK, exit status
    0, nothing written. *)
Theorem untracked_and_present_is_ok (w : world) :
  value plan_is_tracked w = Return false →
  value staged_status_codes w = Return ∅ →
  plan_on_disk w = true →
  value evaluate w = Return OK
  ∧ value main w = Return 0
  ∧ written (effects main w) = [].
Proof.
  intros Htracked%tracked_inv Hstaged%staged_inv Hdisk.
  assert (¬ (∅ ∖ {[lit "D"]} ≠ (∅ : gset str))) as Hvalid
    by (intros H; apply H, no_invalid_status; by left).
  pose proof (not_elem_of_empty (C:=gset str) (lit "D")) as HD.
  from_run. rewrite Htracked, Hstaged, Hdisk. pick_branch.
Qed.

Lemma untracked_and_present_is_ok_witness :
  let w := world_of 1 [] true in
  value plan_is_tracked w = Return false
  ∧ value staged_status_codes w = Return ∅
  ∧ plan_on_disk w = true
  ∧ value main w = Return 0.
Proof.
  split; [reflexivity|]. split; [vm_compute; reflexivity|].
  split; [reflexivity|].
  apply (untracked_and_present_is_ok (world_of 1 [] true)).
  - reflexivity.
  - vm_compute; reflexivity.
  - reflexivity.
Defined.

(** C5. Not tracked, nothing staged, file not on disk: outcome MISSING, exit
    status 3, and one line, the MISSING diagnostic, on standard error. *)
Theorem untracked_and_absent_is_missing (w : world) :
  value plan_is_tracked w = Return false →
  value staged_status_codes w = Return ∅ →
  plan_on_disk w = false →
  value evaluate w = Return MISSING
  ∧ value main w = Return 3
  ∧ written (effects main w) = [MSG_MISSING]
  ∧ one_line MSG_MISSING.
Proof.
  intros Htracked%tracked_inv Hstaged%staged_inv Hdisk.
  assert (¬ (∅ ∖ {[lit "D"]} ≠ (∅ : gset str))) as Hvalid
    by (intros H; apply H, no_invalid_status; by left).
  pose proof (not_elem_of_empty (C:=gset str) (lit "D")) as HD.
  from_run. rewrite Htracked, Hstaged, Hdisk. pick_branch.
  repeat split. apply messages_one_line.
Qed.

Lemma untracked_and_absent_is_missing_witness :
  let w := world_of 1 [] false in
  value plan_is_tracked w = Return false
  ∧ value staged_status_codes w = Return ∅
  ∧ plan_on_disk w = false
  ∧ value main w = Return 3.
Proof.
  split; [reflexivity|]. split; [vm_compute; reflexivity|].
  split; [reflexivity|].
  apply (untracked_and_absent_is_missing (world_of 1 [] false)).
  - reflexivity.
  - vm_compute; reflexivity.
  - reflexivity.
Defined.

(* ===================================================================== *)
(** ** The staged-status parser *)
(* ===================================================================== *)

Lemma leading_token_blank (blank : str) :
  Forall (λ c, is_space c = true) blank → leading_token blank = None.
Proof. intros H. by apply leading_token_none, drop_while_nil. Qed.

(** In terms of the pieces [str.splitlines] cuts: a token is returned if and
    only if some non-empty piece starts with it, after leading whitespace. *)
Lemma staged_status_codes_of_pieces (w : world) :
  let out := stdout (git_reply w DIFF_CACHED) in
  let lines := filter (λ line, line ≠ []) (splitlines out) in
  ∃ staged : gset str,
    value staged_status_codes w = Return staged
    ∧ staged = list_to_set (omap leading_token lines)
    ∧ (∀ token, token ∈ staged ↔
         ∃ line, line ∈ splitlines out ∧ line ≠ [] ∧ leading_token line = Some token)
    ∧ (lines = [] → staged = ∅).
Proof.
  intros out lines. exists (spec_status_codes out).
  split; [apply value_staged_status_codes|]. split; [reflexivity|]. split.
  - intros token. unfold spec_status_codes.
    rewrite elem_of_list_to_set, list_elem_of_omap. split.
    + intros (line & [Hne Hin]%list_elem_of_filter & Htok). by exists line.
    + intros (line & Hin & Hne & Htok). exists line. split; [|done].
      by apply list_elem_of_filter.
  - unfold spec_status_codes. fold lines. by intros ->.
Qed.

(** C10. [staged_status_codes] returns a set for every query output and
    never raises: a line of whitespace only is skipped, [parts[0]] is taken
    only where the stripped line is not empty and then always exists, and
    lines carrying the same token leave one element. *)
Theorem staged_status_codes_total
    (w : world) (before after dups : list str) (blank status : str) :
  Forall (λ c, is_space c = true) blank →
  dups ≠ [] →
  Forall (λ line, leading_token line = Some status) dups →
  (∃ staged, value staged_status_codes w = Return staged)
  ∧ (∀ out statuses, ∃ staged,
       collect_statuses (splitlines out) statuses = Return staged)
  ∧ (∀ line, strip line = [] ∨
       ∃ first, index (split (strip line)) 0 = Return first)
  ∧ strip blank = []
  ∧ (∀ statuses,
       collect_statuses (before ++ blank :: after) statuses
       = collect_statuses (before ++ after) statuses)
  ∧ collect_statuses dups ∅ = Return {[status]}.
Proof.
  intros Hblank Hne Hdups. repeat split.
  - eexists. apply value_staged_status_codes.
  - intros out statuses. eexists. apply collect_statuses_run.
  - intros line. destruct (decide (strip line = [])) as [?|Hline]; [by left|].
    right. destruct (first_part_of_stripped line Hline) as (first & _ & ?).
    by exists first.
  - by apply strip_nil, drop_while_nil.
  - intros statuses. rewrite !collect_statuses_run, !omap_app. simpl.
    by rewrite (leading_token_blank blank Hblank).
  - rewrite collect_statuses_run, (left_id_L ∅ (∪)). f_equal.
    apply set_eq. intros token.
    rewrite elem_of_list_to_set, list_elem_of_omap, elem_of_singleton. split.
    + intros (line & Hin & Htok).
      rewrite Forall_forall in Hdups. apply Hdups in Hin. congruence.
    + intros ->. destruct dups as [|line dups']; [done|].
      exists line. split; [apply list_elem_of_here|]. by inversion Hdups.
Qed.

Lemma staged_status_codes_total_witness :
  let w := world_of 1 (name_status_line (lit "A") ++ lit " " ++ [TAB; LF]
                       ++ name_status_line (lit "A")) true in
  value staged_status_codes w = Return {[lit "A"]}
  ∧ collect_statuses [lit "A x"; [TAB]; lit " A y"] ∅
    = collect_statuses [lit "A x"; lit " A y"] ∅
  ∧ collect_statuses [lit "A x"; lit " A y"] ∅ = Return {[lit "A"]}.
Proof.
  pose proof (staged_status_codes_total
                (world_of 1 [] true) [lit "A x"] [lit " A y"]
                [lit "A x"; lit " A y"] [TAB] (lit "A")) as H.
  destruct H as (_ & _ & _ & _ & Hskip & Hdup).
  - repeat constructor.
  - discriminate.
  - repeat constructor.
  - split; [vm_compute; reflexivity|]. split; [apply Hskip | apply Hdup].
Defined.

(* ===================================================================== *)
(** ** Exit status, diagnostics, determinism *)
(* ===================================================================== *)

(** The outcome of a run, read off the three observations. *)
Lemma evaluate_returns (w : world) : ∃ o, value evaluate w = Return o.
Proof.
  unfold value. rewrite run_evaluate. cbv zeta.
  destruct (returncode (git_reply w LS_FILES) =? 0); [by eexists|].
  repeat case_decide; [by eexists..|].
  destruct (plan_on_disk w); by eexists.
Qed.

Lemma main_returns (w : world) : ∃ code, value main w = Return code.
Proof.
  destruct (evaluate_returns w) as [o Ho]. exists (result_code o).
  by rewrite value_main, Ho.
Qed.

Lemma main_twice_same (w : world) :
  ∃ code, (main_twice w []).1 = Return (code, code).
Proof.
  destruct (main_returns w) as [code Hcode]. exists code.
  unfold main_twice, mbind, M_bind.
  rewrite (main_frame w []), Hcode.
  rewrite (main_frame w ([] ++ effects main w)), Hcode. reflexivity.
Qed.

(** C7. Every run ends with exit status 0, 1, 2 or 3.  Something is written
    to standard error exactly when the status is not 0: OK and
    OK_STAGED_DELETE write nothing, and TRACKED, INVALID_STAGED_CHANGE and
    MISSING each write their one line. *)
Theorem exit_status_and_diagnostic (w : world) :
  ∃ o,
    value evaluate w = Return o
    ∧ value main w = Return (result_code o)
    ∧ result_code o ∈ [0; 1; 2; 3]
    ∧ (written (effects main w) ≠ [] ↔ result_code o ≠ 0)
    ∧ written (effects main w)
      = match o with
        | OK | OK_STAGED_DELETE => []
        | TRACKED => [MSG_TRACKED]
        | INVALID_STAGED_CHANGE => [MSG_STAGED]
        | MISSING => [MSG_MISSING]
        end
    ∧ Forall one_line (written (effects main w)).
Proof.
  destruct messages_one_line as (Ht & Hs & Hm).
  rewrite value_main, effects_main. unfold value, effects.
  rewrite run_evaluate. cbv zeta.
  destruct (returncode (git_reply w LS_FILES) =? 0);
    [|repeat case_decide; [| |destruct (plan_on_disk w)]].
  - exists TRACKED. simpl. repeat split; try done.
    + repeat constructor.
    + by repeat constructor.
  - exists INVALID_STAGED_CHANGE. simpl. repeat split; try done.
    + repeat constructor.
    + by repeat constructor.
  - exists OK_STAGED_DELETE. simpl. repeat split; try done.
    apply list_elem_of_here.
  - exists OK. simpl. repeat split; try done.
    apply list_elem_of_here.
  - exists MISSING. simpl. repeat split; try done.
    + repeat constructor.
    + by repeat constructor.
Qed.

(** C8. The result is a function of the tracking status, the output of the
    staged-status query and the presence of the file, and of nothing else:
    two runs that agree on these three, whatever else differs in what git
    answers and whatever was logged before, return the same outcome and the
    same exit status and do the same things; and the script run twice in a
    row returns the same exit status twice. *)
Theorem evaluation_is_deterministic (w1 w2 : world) (log1 log2 : list event) :
  value plan_is_tracked w1 = value plan_is_tracked w2 →
  stdout (git_reply w1 DIFF_CACHED) = stdout (git_reply w2 DIFF_CACHED) →
  plan_on_disk w1 = plan_on_disk w2 →
  (evaluate w1 log1).1 = (evaluate w2 log2).1
  ∧ (main w1 log1).1 = (main w2 log2).1
  ∧ effects main w1 = effects main w2
  ∧ (main w1 log1).2 = log1 ++ effects main w1
  ∧ ∃ code, value main_twice w1 = Return (code, code).
Proof.
  rewrite !value_plan_is_tracked. intros [= Htracked] Hdiff Hdisk.
  assert (evaluate w1 [] = evaluate w2 []) as Hsame
    by (by rewrite !run_evaluate, Htracked, Hdiff, Hdisk).
  assert (main w1 [] = main w2 []) as Hmain
    by (by rewrite !run_main, Hsame).
  rewrite (evaluate_frame w1 log1), (evaluate_frame w2 log2).
  rewrite (main_frame w1 log1), (main_frame w2 log2).
  unfold value, effects. rewrite Hsame, Hmain. repeat split.
  apply main_twice_same.
Qed.

Lemma evaluation_is_deterministic_witness :
  let out := name_status_line (lit "M") in
  let w1 := world_of 1 out true in
  let w2 := {| git_reply := λ args,
                 if decide (args = LS_FILES)
                 then {| returncode := 128; stdout := lit "?";
                         stderr := lit "fatal" |}
                 else {| returncode := 7; stdout := out; stderr := lit "!" |};
               plan_on_disk := true |} in
  (main w1 []).1 = (main w2 [EvExists]).1
  ∧ value main_twice w1 = Return (2, 2).
Proof.
  intros out w1 w2.
  destruct (evaluation_is_deterministic w1 w2 [] [EvExists])
    as (_ & Hmain & _ & _ & code & Htwice).
  - reflexivity.
  - reflexivity.
  - reflexivity.
  - split; [exact Hmain | vm_compute; reflexivity].
Defined.

(** C9. ["D"] is matched as a whole string.  With the file untracked, the
    outcome is INVALID_STAGED_CHANGE exactly when the staged set holds a
    token different from ["D"], and OK_STAGED_DELETE exactly when the set is
    the singleton of ["D"]; in particular a set holding ["DM"], ["d"] or
    ["R100"] gives INVALID_STAGED_CHANGE with exit status 2 and not
    OK_STAGED_DELETE. *)
Theorem deleted_is_exactly_D (w : world) (staged : gset str) :
  value plan_is_tracked w = Return false →
  value staged_status_codes w = Return staged →
  (value evaluate w = Return INVALID_STAGED_CHANGE ↔
     ∃ token, token ∈ staged ∧ token ≠ lit "D")
  ∧ (value evaluate w = Return OK_STAGED_DELETE ↔ staged = {[lit "D"]})
  ∧ (∀ token, token ∈ [lit "DM"; lit "d"; lit "R100"] → token ∈ staged →
       value evaluate w = Return INVALID_STAGED_CHANGE
       ∧ value main w = Return 2
       ∧ value evaluate w ≠ Return OK_STAGED_DELETE).
Proof.
  intros Htracked%tracked_inv Hstaged%staged_inv.
  assert (value evaluate w = Return INVALID_STAGED_CHANGE ↔
            ∃ token, token ∈ staged ∧ token ≠ lit "D") as Hinvalid.
  { rewrite <- invalid_status_iff. from_run. rewrite Htracked, Hstaged.
    repeat case_decide; [done..|]. by destruct (plan_on_disk w). }
  split; [exact Hinvalid|]. split.
  - from_run. rewrite Htracked, Hstaged. split.
    + destruct (decide (staged ∖ {[lit "D"]} ≠ ∅)) as [_|Hvalid]; [done|].
      destruct (decide (lit "D" ∈ staged)) as [HD|_];
        [|by destruct (plan_on_disk w)].
      intros _.
      destruct (decide (staged ∖ {[lit "D"]} = ∅)) as [Hempty|?]; [|done].
      apply no_invalid_status in Hempty as [-> | ->]; [|done].
      by apply not_elem_of_empty in HD.
    + intros ->.
      destruct (decide (({[lit "D"]} : gset str) ∖ {[lit "D"]} ≠ ∅)) as [Hbad|_].
      { exfalso. apply Hbad, no_invalid_status. by right. }
      destruct (decide (lit "D" ∈ ({[lit "D"]} : gset str))) as [_|Hout]; [done|].
      exfalso. by apply Hout, elem_of_singleton.
  - intros token Hlist Hin.
    assert (token ≠ lit "D") as Hne.
    { intros ->. repeat (apply elem_of_cons in Hlist as [Hlist|Hlist]; [discriminate|]).
      by apply elem_of_nil in Hlist. }
    assert (value evaluate w = Return INVALID_STAGED_CHANGE) as Ho
      by (apply Hinvalid; eauto).
    split; [done|]. split; [by rewrite value_main, Ho|]. by rewrite Ho.
Qed.

Lemma deleted_is_exactly_D_witness :
  let w := world_of 1 (name_status_line (lit "D") ++ name_status_line (lit "DM")) true in
  value plan_is_tracked w = Return false
  ∧ value staged_status_codes w = Return {[lit "D"; lit "DM"]}
  ∧ value main w = Return 2.
Proof.
  intros w.
  destruct (deleted_is_exactly_D w {[lit "D"; lit "DM"]}) as (_ & _ & Htokens).
  - reflexivity.
  - vm_compute; reflexivity.
  - split; [reflexivity|]. split; [vm_compute; reflexivity|].
    apply (Htokens (lit "DM")).
    + apply list_elem_of_here.
    + apply elem_of_union_r, elem_of_singleton. reflexivity.
Defined.

(* ===================================================================== *)
(** ** More on the text primitives *)
(* ===================================================================== *)

Section MoreTextFacts.

Implicit Types (s t body more line : str) (p : char → bool).

(** [splitlines] looks one or two characters ahead: induction in steps of
    one and two. *)
Lemma str_two_step_ind (P : str → Prop) :
  P [] → (∀ c, P [c]) → (∀ c d s, P s → P (d :: s) → P (c :: d :: s)) →
  ∀ s, P s.
Proof.
  intros Hnil Hone Htwo s.
  assert (P s ∧ ∀ c, P (c :: s)) as [? _]; [|done].
  induction s as [|d s [IHs IHds]]; [by split|].
  split; [apply IHds|]. intros c. by apply Htwo.
Qed.

Lemma linebreak_is_space (c : char) : is_linebreak c = true → is_space c = true.
Proof.
  unfold is_linebreak, is_space. intros H.
  repeat (apply orb_prop in H as [H|H]);
    repeat match goal with
    | H : (_ && _)%bool = true |- _ => apply andb_prop in H as [? ?]
    | H : (_ <=? _)%N = true |- _ => apply N.leb_le in H
    | H : (_ =? _)%N = true |- _ => apply N.eqb_eq in H; subst c
    end; try reflexivity.
  - replace (c <=? 0x0D)%N with true by (symmetry; apply N.leb_le; lia).
    replace (0x09 <=? c)%N with true by (symmetry; apply N.leb_le; lia).
    reflexivity.
  - replace (c <=? 0x20)%N with true by (symmetry; apply N.leb_le; lia).
    replace (0x1C <=? c)%N with true by (symmetry; apply N.leb_le; lia).
    simpl. by rewrite orb_true_r.
Qed.

Lemma not_space_not_linebreak (c : char) :
  is_space c = false → is_linebreak c = false.
Proof.
  intros H. destruct (is_linebreak c) eqn:E; [|done].
  apply linebreak_is_space in E. congruence.
Qed.

Lemma splitlines_cons_ne c s : splitlines (c :: s) ≠ [].
Proof.
  simpl. destruct (is_linebreak c); [done|]. by destruct (splitlines s).
Qed.

(** A body free of line boundaries, then LF: one line, and the rest goes
    on from there. *)
Lemma splitlines_lf body more :
  Forall (λ c, is_linebreak c = false) body →
  splitlines (body ++ LF :: more) = body :: splitlines more.
Proof.
  induction 1 as [|c body Hc _ IH]; simpl.
  - by destruct more.
  - by rewrite Hc, IH.
Qed.

Lemma splitlines_crlf body more :
  Forall (λ c, is_linebreak c = false) body →
  splitlines (body ++ CR :: LF :: more) = body :: splitlines more.
Proof.
  induction 1 as [|c body Hc _ IH]; simpl; [done|]. by rewrite Hc, IH.
Qed.

(** Cutting a text at an LF: the lines of both halves, with at most one
    empty line between them. *)
Lemma splitlines_at_lf s t :
  splitlines (s ++ LF :: t) = splitlines s ++ splitlines t
  ∨ splitlines (s ++ LF :: t) = splitlines s ++ [] :: splitlines t.
Proof.
  assert (splitlines (LF :: t) = [] :: splitlines t) as Hlf
    by (by destruct t).
  induction s as [|c|c d s IHs IHds] using str_two_step_ind.
  - by right.
  - change (splitlines ([c] ++ LF :: t)) with
      (if is_linebreak c then
         [] :: (if ((c =? CR) && (LF =? LF))%N then splitlines t
                else splitlines (LF :: t))
       else match splitlines (LF :: t) with
            | [] => [[c]]
            | line :: lines => (c :: line) :: lines
            end).
    change (splitlines [c]) with (if is_linebreak c then [[]] else [[c]]).
    rewrite Hlf. destruct (is_linebreak c).
    + destruct ((c =? CR) && (LF =? LF))%N; [by left | by right].
    + by left.
  - change ((c :: d :: s) ++ LF :: t) with (c :: d :: (s ++ LF :: t)).
    change (splitlines (c :: d :: s ++ LF :: t)) with
      (if is_linebreak c then
         [] :: (if ((c =? CR) && (d =? LF))%N then splitlines (s ++ LF :: t)
                else splitlines ((d :: s) ++ LF :: t))
       else match splitlines ((d :: s) ++ LF :: t) with
            | [] => [[c]]
            | line :: lines => (c :: line) :: lines
            end).
    change (splitlines (c :: d :: s)) with
      (if is_linebreak c then
         [] :: (if ((c =? CR) && (d =? LF))%N then splitlines s
                else splitlines (d :: s))
       else match splitlines (d :: s) with
            | [] => [[c]]
            | line :: lines => (c :: line) :: lines
            end).
    destruct (is_linebreak c).
    + destruct ((c =? CR) && (d =? LF))%N.
      * destruct IHs as [-> | ->]; [by left | by right].
      * destruct IHds as [-> | ->]; [by left | by right].
    + pose proof (splitlines_cons_ne d s) as Hne.
      destruct (splitlines (d :: s)) as [|line lines]; [done|].
      destruct IHds as [-> | ->]; [by left | by right].
Qed.

(** Every character of a line was a character of the text. *)
Lemma splitlines_Forall (P : char → Prop) s :
  Forall P s → Forall (Forall P) (splitlines s).
Proof.
  induction s as [|c|c d s IHs IHds] using str_two_step_ind; intros Hs.
  - constructor.
  - simpl. destruct (is_linebreak c); constructor; done || constructor.
  - pose proof (Forall_inv Hs) as Hc. apply Forall_inv_tail in Hs.
    specialize (IHds Hs). specialize (IHs (Forall_inv_tail Hs)).
    change (splitlines (c :: d :: s)) with
      (if is_linebreak c then
         [] :: (if ((c =? CR) && (d =? LF))%N then splitlines s
                else splitlines (d :: s))
       else match splitlines (d :: s) with
            | [] => [[c]]
            | line :: lines => (c :: line) :: lines
            end).
    destruct (is_linebreak c).
    + constructor; [constructor|]. by destruct ((c =? CR) && (d =? LF))%N.
    + destruct (splitlines (d :: s)) as [|line lines].
      * constructor; [by constructor | constructor].
      * inversion IHds; subst. constructor; [by constructor | done].
Qed.

Lemma take_while_Forall p s : Forall (λ c, p c = true) (take_while p s).
Proof.
  induction s as [|c s IH]; simpl; [constructor|].
  destruct (p c) eqn:Hc; by constructor.
Qed.

Lemma take_while_stop p s c t :
  Forall (λ c, p c = true) s → p c = false → take_while p (s ++ c :: t) = s.
Proof.
  intros Hs Hc. induction Hs as [|d s Hd _ IH]; simpl.
  - by rewrite Hc.
  - by rewrite Hd, IH.
Qed.

(** A leading token is a word: not empty, no whitespace inside. *)
Lemma leading_token_word line token :
  leading_token line = Some token →
  token ≠ [] ∧ Forall (λ c, is_space c = false) token.
Proof.
  unfold leading_token.
  destruct (drop_while is_space line) as [|c rest] eqn:E; [done|].
  intros [= <-]. pose proof (drop_while_head _ _ _ _ E) as Hc.
  split.
  - simpl. by rewrite Hc.
  - pose proof (take_while_Forall (λ c, negb (is_space c)) (c :: rest)) as H.
    eapply Forall_impl; [exact H|].
    simpl. intros d Hd. by apply negb_true_iff.
Qed.

(** A word followed by whitespace is the leading token, whatever comes
    after. *)
Lemma leading_token_of_word token c more :
  token ≠ [] → Forall (λ c, is_space c = false) token → is_space c = true →
  leading_token (token ++ c :: more) = Some token.
Proof.
  intros Hne Htoken Hc. unfold leading_token.
  destruct token as [|d token]; [done|].
  pose proof (Forall_inv Htoken) as Hd.
  change ((d :: token) ++ c :: more) with (d :: (token ++ c :: more)).
  cbn [drop_while]. rewrite Hd. f_equal.
  change (d :: (token ++ c :: more)) with ((d :: token) ++ c :: more).
  apply take_while_stop.
  - eapply Forall_impl; [exact Htoken|]. simpl. by intros ? ->.
  - by rewrite Hc.
Qed.

End MoreTextFacts.

(* ===================================================================== *)
(** ** More on the staged-status parser *)
(* ===================================================================== *)

Lemma spec_status_codes_tokens (out : str) :
  spec_status_codes out = list_to_set (omap leading_token (splitlines out)).
Proof. unfold spec_status_codes. by rewrite omap_leading_token_nonempty. Qed.

(** X1. Every status [staged_status_codes] returns is a word: it is not the
    empty string and holds no whitespace, hence no line boundary either. *)
Theorem staged_tokens_are_words (w : world) (staged : gset str) (token : str) :
  value staged_status_codes w = Return staged →
  token ∈ staged →
  token ≠ []
  ∧ Forall (λ c, is_space c = false) token
  ∧ Forall (λ c, is_linebreak c = false) token.
Proof.
  intros <-%staged_inv. rewrite spec_status_codes_tokens.
  rewrite elem_of_list_to_set, list_elem_of_omap.
  intros (line & _ & [Hne Hword]%leading_token_word).
  repeat split; [done..|].
  eapply Forall_impl; [exact Hword|]. apply not_space_not_linebreak.
Qed.

Lemma staged_tokens_are_words_witness :
  let w := world_of 1 (lit "  R100" ++ [TAB] ++ lit "a b" ++ [LF]) true in
  value staged_status_codes w = Return {[lit "R100"]}
  ∧ lit "R100" ≠ [] ∧ Forall (λ c, is_space c = false) (lit "R100").
Proof.
  intros w. split; [vm_compute; reflexivity|].
  destruct (staged_tokens_are_words w {[lit "R100"]} (lit "R100"))
    as (Hne & Hword & _).
  - vm_compute; reflexivity.
  - apply elem_of_singleton. reflexivity.
  - by split.
Defined.

Lemma render_entry_lines (e : entry) (more : str) :
  well_formed_entry e →
  splitlines (render_entry e ++ more)
  = (entry_status e ++ [TAB] ++ entry_rest e) :: splitlines more.
Proof.
  intros (_ & Hword & Hrest). unfold render_entry.
  assert (Forall (λ c, is_linebreak c = false)
            (entry_status e ++ [TAB] ++ entry_rest e)) as Hbody.
  { apply Forall_app. split.
    - eapply Forall_impl; [exact Hword|]. apply not_space_not_linebreak.
    - by constructor. }
  set (body := entry_status e ++ [TAB] ++ entry_rest e) in *.
  destruct (entry_crlf e).
  - replace ((entry_status e ++ [TAB] ++ entry_rest e ++ [CR; LF]) ++ more)
      with (body ++ CR :: LF :: more)
      by (unfold body; by rewrite <- !app_assoc).
    by apply splitlines_crlf.
  - replace ((entry_status e ++ [TAB] ++ entry_rest e ++ [LF]) ++ more)
      with (body ++ LF :: more)
      by (unfold body; by rewrite <- !app_assoc).
    by apply splitlines_lf.
Qed.

Lemma render_entry_token (e : entry) :
  well_formed_entry e →
  leading_token (entry_status e ++ [TAB] ++ entry_rest e) = Some (entry_status e).
Proof. intros (Hne & Hword & _). by apply leading_token_of_word. Qed.

Lemma omap_leading_token_cons (line : str) (lines : list str) (token : str) :
  leading_token line = Some token →
  omap leading_token (line :: lines) = token :: omap leading_token lines.
Proof. intros H. simpl. by rewrite H. Qed.

(** X2. Parsing what git prints gives back the statuses: for output made of
    lines "status TAB rest", each ended by LF or CR LF, with statuses that
    are words, [staged_status_codes] returns exactly the set of the
    statuses.  What follows the status on a line plays no part. *)
Theorem rendered_output_round_trip (w : world) (entries : list entry) :
  stdout (git_reply w DIFF_CACHED) = name_status_output entries →
  Forall well_formed_entry entries →
  value staged_status_codes w = Return (list_to_set (entry_status <$> entries)).
Proof.
  intros Hout Hwf. rewrite value_staged_status_codes, Hout.
  rewrite spec_status_codes_tokens. do 2 f_equal. clear w Hout.
  induction Hwf as [|e entries He _ IH]; [done|].
  unfold name_status_output. simpl concat.
  rewrite (render_entry_lines e _ He).
  rewrite (omap_leading_token_cons _ _ _ (render_entry_token e He)).
  rewrite fmap_cons. f_equal. exact IH.
Qed.

Lemma rendered_output_round_trip_witness :
  let entries :=
    [ {| entry_status := lit "R100"; entry_rest := lit "old name" ++ [TAB] ++ lit "PLAN.md";
         entry_crlf := true |};
      {| entry_status := lit "D"; entry_rest := lit "PLAN.md"; entry_crlf := false |} ] in
  let w := world_of 1 (name_status_output entries) true in
  value staged_status_codes w = Return {[lit "R100"; lit "D"]}.
Proof.
  intros entries w.
  rewrite (rendered_output_round_trip w entries).
  - vm_compute; reflexivity.
  - reflexivity.
  - repeat constructor; discriminate.
Defined.

(** X3. The loop of [staged_status_codes] composes: over two runs of lines
    it adds to the set it starts from the statuses of the first run and
    those of the second; nothing already in the set is lost. *)
Theorem collect_statuses_app (before after : list str) (statuses : gset str) :
  ∃ first second,
    collect_statuses before ∅ = Return first
    ∧ collect_statuses after ∅ = Return second
    ∧ collect_statuses (before ++ after) statuses
      = Return (statuses ∪ first ∪ second)
    ∧ statuses ⊆ statuses ∪ first ∪ second.
Proof.
  exists (list_to_set (omap leading_token before)),
         (list_to_set (omap leading_token after)).
  rewrite !collect_statuses_run, omap_app, list_to_set_app_L.
  rewrite !(left_id_L ∅ (∪)), (assoc_L (∪)).
  repeat split. intros token Hin. by do 2 apply elem_of_union_l.
Qed.

(** X4. The order of the output lines does not matter to the loop. *)
Theorem collect_statuses_permutation (lines lines' : list str) (statuses : gset str) :
  lines ≡ₚ lines' →
  collect_statuses lines statuses = collect_statuses lines' statuses.
Proof.
  intros Hperm. rewrite !collect_statuses_run. do 2 f_equal.
  apply set_eq. intros token.
  rewrite !elem_of_list_to_set, !list_elem_of_omap.
  split; intros (line & Hin & Htoken); exists line; split; try done.
  - by rewrite <- Hperm.
  - by rewrite Hperm.
Qed.

Lemma collect_statuses_permutation_witness :
  collect_statuses [lit "A x"; lit "D y"] ∅
  = collect_statuses [lit "D y"; lit "A x"] ∅.
Proof.
  apply (collect_statuses_permutation [lit "A x"; lit "D y"] [lit "D y"; lit "A x"]).
  apply Permutation_swap.
Defined.

(** X5. Output cut at an LF: the statuses of the whole are those of the part
    before together with those of the part after. *)
Theorem staged_status_codes_at_newline (w w1 w2 : world) :
  stdout (git_reply w DIFF_CACHED)
  = stdout (git_reply w1 DIFF_CACHED) ++ LF :: stdout (git_reply w2 DIFF_CACHED) →
  ∃ first second,
    value staged_status_codes w1 = Return first
    ∧ value staged_status_codes w2 = Return second
    ∧ value staged_status_codes w = Return (first ∪ second).
Proof.
  intros Hout. eexists _, _.
  split; [apply value_staged_status_codes|].
  split; [apply value_staged_status_codes|].
  rewrite value_staged_status_codes, Hout, !spec_status_codes_tokens. f_equal.
  destruct (splitlines_at_lf (stdout (git_reply w1 DIFF_CACHED))
              (stdout (git_reply w2 DIFF_CACHED))) as [-> | ->];
    by rewrite omap_app, list_to_set_app_L.
Qed.

Lemma staged_status_codes_at_newline_witness :
  let w1 := world_of 1 (lit "A" ++ [TAB] ++ lit "PLAN.md" ++ [CR]) true in
  let w2 := world_of 1 (name_status_line (lit "D")) true in
  let w := world_of 1 (lit "A" ++ [TAB] ++ lit "PLAN.md" ++ [CR; LF]
                       ++ name_status_line (lit "D")) true in
  value staged_status_codes w = Return {[lit "A"; lit "D"]}.
Proof.
  intros w1 w2 w.
  destruct (staged_status_codes_at_newline w w1 w2) as (first & second & H1 & H2 & ->).
  - reflexivity.
  - assert (Return first = Return ({[lit "A"]} : gset str)) as [= ->]
      by (rewrite <- H1; vm_compute; reflexivity).
    assert (Return second = Return ({[lit "D"]} : gset str)) as [= ->]
      by (rewrite <- H2; vm_compute; reflexivity).
    reflexivity.
Defined.

(** X6. A final LF after the output changes nothing. *)
Theorem trailing_newline_is_ignored (w w' : world) :
  stdout (git_reply w' DIFF_CACHED) = stdout (git_reply w DIFF_CACHED) ++ [LF] →
  value staged_status_codes w' = value staged_status_codes w.
Proof.
  intros Hout.
  rewrite !value_staged_status_codes, Hout, !spec_status_codes_tokens. f_equal.
  destruct (splitlines_at_lf (stdout (git_reply w DIFF_CACHED)) []) as [-> | ->];
    rewrite omap_app, list_to_set_app_L; simpl; by rewrite (right_id_L ∅ (∪)).
Qed.

Lemma trailing_newline_is_ignored_witness :
  value staged_status_codes (world_of 1 (lit "D" ++ [TAB] ++ lit "PLAN.md" ++ [LF]) true)
  = value staged_status_codes (world_of 1 (lit "D" ++ [TAB] ++ lit "PLAN.md") true).
Proof.
  apply (trailing_newline_is_ignored
           (world_of 1 (lit "D" ++ [TAB] ++ lit "PLAN.md") true)
           (world_of 1 (lit "D" ++ [TAB] ++ lit "PLAN.md" ++ [LF]) true)).
  reflexivity.
Defined.

Lemma spec_status_codes_blank (out : str) :
  Forall (λ c, is_space c = true) out → spec_status_codes out = ∅.
Proof.
  intros Hblank. rewrite spec_status_codes_tokens.
  apply splitlines_Forall in Hblank.
  induction Hblank as [|line lines Hline _ IH]; [done|].
  simpl. by rewrite (leading_token_blank line Hline).
Qed.

(** X7. Output of whitespace only, line ends included, is no staged change
    at all. *)
Theorem blank_output_is_nothing_staged (w : world) :
  Forall (λ c, is_space c = true) (stdout (git_reply w DIFF_CACHED)) →
  value staged_status_codes w = Return ∅.
Proof.
  intros Hblank. by rewrite value_staged_status_codes, spec_status_codes_blank.
Qed.

Lemma blank_output_is_nothing_staged_witness :
  value staged_status_codes (world_of 1 (lit "  " ++ [CR; LF; TAB; LF] ++ lit " ") true)
  = Return ∅.
Proof.
  apply (blank_output_is_nothing_staged
           (world_of 1 (lit "  " ++ [CR; LF; TAB; LF] ++ lit " ") true)).
  repeat constructor.
Defined.

(* ===================================================================== *)
(** ** More on the decision *)
(* ===================================================================== *)

(** The five cases of a run, each with its condition on what the script
    observes, its outcome, and what was done after the two git queries. *)
Lemma outcome_cases (w : world) :
  let tracked := returncode (git_reply w LS_FILES) =? 0 in
  let staged := spec_status_codes (stdout (git_reply w DIFF_CACHED)) in
  ∃ o tail,
    evaluate w [] = (Return o, ASKED_LS_FILES :: ASKED_DIFF :: tail)
    ∧ ( (o = TRACKED ∧ tail = [EvWrite MSG_TRACKED] ∧ tracked = true)
      ∨ (o = INVALID_STAGED_CHANGE ∧ tail = [EvWrite MSG_STAGED]
         ∧ tracked = false ∧ ∃ token, token ∈ staged ∧ token ≠ lit "D")
      ∨ (o = OK_STAGED_DELETE ∧ tail = []
         ∧ tracked = false ∧ staged = {[lit "D"]})
      ∨ (o = OK ∧ tail = [EvExists]
         ∧ tracked = false ∧ staged = ∅ ∧ plan_on_disk w = true)
      ∨ (o = MISSING ∧ tail = [EvExists; EvWrite MSG_MISSING]
         ∧ tracked = false ∧ staged = ∅ ∧ plan_on_disk w = false) ).
Proof.
  intros tracked staged. rewrite run_evaluate. cbv zeta.
  fold tracked staged. destruct tracked eqn:Htracked.
  { eexists _, _. split; [reflexivity|]. by left. }
  destruct (decide (staged ∖ {[lit "D"]} ≠ ∅)) as [Hbad|Hvalid].
  { eexists _, _. split; [reflexivity|]. right; left.
    by apply invalid_status_iff in Hbad. }
  assert (staged = ∅ ∨ staged = {[lit "D"]}) as Hcases.
  { apply no_invalid_status.
    destruct (decide (staged ∖ {[lit "D"]} = ∅)); [done | by destruct Hvalid]. }
  destruct (decide (lit "D" ∈ staged)) as [HD|HD].
  { eexists _, _. split; [reflexivity|]. right; right; left.
    destruct Hcases as [Hnil|?]; [|done].
    rewrite Hnil in HD. by apply not_elem_of_empty in HD. }
  assert (staged = ∅) as Hnil.
  { destruct Hcases as [?|Hone]; [done|].
    destruct HD. rewrite Hone. by apply elem_of_singleton. }
  destruct (plan_on_disk w) eqn:Hdisk.
  - eexists _, _. split; [reflexivity|]. by right; right; right; left.
  - eexists _, _. split; [reflexivity|]. by right; right; right; right.
Qed.

(** The conditions exclude one another. *)
Lemma not_both_invalid_and_deleted (staged : gset str) (token : str) :
  token ∈ staged → token ≠ lit "D" → staged ≠ {[lit "D"]}.
Proof. intros Hin Hne ->. by apply elem_of_singleton in Hin. Qed.

(** Read a run of [main] off [outcome_cases]. *)
Lemma main_of_evaluate (w : world) (o : outcome) (log : list event) :
  evaluate w [] = (Return o, log) →
  value evaluate w = Return o
  ∧ value main w = Return (result_code o)
  ∧ effects main w = log.
Proof.
  intros Hrun. unfold value, effects. rewrite run_main, Hrun. done.
Qed.

(** X8. Whatever the outcome, a run starts with the same two git commands,
    [ls-files --error-unmatch PLAN.md] and then
    [diff --cached --name-status -- PLAN.md], the second also when the
    first has already decided; no other command is ever run, and what
    follows is at most one look at the working tree and at most one
    diagnostic, in that order. *)
Theorem git_is_asked_twice (w : world) :
  ∃ tail,
    effects main w = ASKED_LS_FILES :: ASKED_DIFF :: tail
    ∧ tail ∈ [ []; [EvWrite MSG_TRACKED]; [EvWrite MSG_STAGED];
               [EvExists]; [EvExists; EvWrite MSG_MISSING] ]
    ∧ ∀ argv, EvRun argv ∉ tail.
Proof.
  destruct (outcome_cases w) as (o & tail & Hrun & Hcases).
  apply main_of_evaluate in Hrun as (_ & _ & Heffects).
  exists tail. split; [done|].
  destruct Hcases as [(_ & -> & _) | [(_ & -> & _) | [(_ & -> & _) |
                     [(_ & -> & _) | (_ & -> & _)]]]];
    (split; [by repeat constructor | intros argv; not_in_log]).
Qed.

(** X9. [PLAN_PATH.exists()] is called exactly in the runs where the file is
    untracked and no status at all is staged. *)
Theorem working_tree_is_consulted_iff (w : world) :
  EvExists ∈ effects main w
  ↔ value plan_is_tracked w = Return false
    ∧ value staged_status_codes w = Return ∅.
Proof.
  rewrite value_plan_is_tracked, value_staged_status_codes.
  destruct (outcome_cases w) as (o & tail & Hrun & Hcases).
  apply main_of_evaluate in Hrun as (_ & _ & ->).
  destruct Hcases as [(_ & -> & Htr) | [(_ & -> & Htr & token & Hin & Hne) |
                     [(_ & -> & Htr & Hst) | [(_ & -> & Htr & Hst & _) |
                      (_ & -> & Htr & Hst & _)]]]];
    rewrite Htr; try rewrite Hst.
  - split; [not_in_log | by intros [[=] _]].
  - split; [not_in_log|]. intros [_ [= Hnil]].
    rewrite Hnil in Hin. by apply not_elem_of_empty in Hin.
  - split; [not_in_log | by intros [_ [=]]].
  - split; [done | intros _; by repeat constructor].
  - split; [done | intros _; by repeat constructor].
Qed.

(** X10. A non-zero exit status names its cause: 1 is returned exactly when
    the file is tracked, 2 exactly when it is untracked with some staged
    status other than ["D"], 3 exactly when it is untracked, nothing is
    staged and the file is not on disk. *)
Theorem failure_status_names_the_cause (w : world) :
  (value main w = Return 1 ↔ value plan_is_tracked w = Return true)
  ∧ (value main w = Return 2 ↔
       value plan_is_tracked w = Return false
       ∧ ∃ staged token, value staged_status_codes w = Return staged
                         ∧ token ∈ staged ∧ token ≠ lit "D")
  ∧ (value main w = Return 3 ↔
       value plan_is_tracked w = Return false
       ∧ value staged_status_codes w = Return ∅
       ∧ plan_on_disk w = false).
Proof.
  rewrite value_plan_is_tracked, value_staged_status_codes.
  destruct (outcome_cases w) as (o & tail & Hrun & Hcases).
  apply main_of_evaluate in Hrun as (_ & -> & _).
  destruct Hcases as [(-> & _ & Htr) | [(-> & _ & Htr & token & Hin & Hne) |
                     [(-> & _ & Htr & Hst) | [(-> & _ & Htr & Hst & Hdisk) |
                      (-> & _ & Htr & Hst & Hdisk)]]]];
    rewrite Htr; try rewrite Hst; try rewrite Hdisk; simpl;
    (split; [|split]); (split; [try done|]).
  all: try by intros [[=] _].
  all: try by intros (_ & _ & [=]).
  all: try by intros [=].
  all: try by intros (_ & [=] & _).
  - intros _. split; [done|]. by eexists _, token.
  - intros (_ & [= Hnil] & _).
    rewrite Hnil in Hin. by apply not_elem_of_empty in Hin.
  - intros (_ & staged & token' & [= <-] & Hin' & Hne').
    by apply elem_of_singleton in Hin'.
  - intros (_ & staged & token' & [= <-] & Hin' & Hne').
    by apply not_elem_of_empty in Hin'.
  - intros (_ & staged & token' & [= <-] & Hin' & Hne').
    by apply not_elem_of_empty in Hin'.
Qed.

(** X11. Exit status 0 is returned exactly when the file is untracked and
    either the staged set is the singleton of ["D"], or nothing is staged
    and the file is on disk. *)
Theorem success_iff (w : world) :
  value main w = Return 0
  ↔ value plan_is_tracked w = Return false
    ∧ ( value staged_status_codes w = Return {[lit "D"]}
      ∨ (value staged_status_codes w = Return ∅ ∧ plan_on_disk w = true) ).
Proof.
  rewrite value_plan_is_tracked, value_staged_status_codes.
  destruct (outcome_cases w) as (o & tail & Hrun & Hcases).
  apply main_of_evaluate in Hrun as (_ & -> & _).
  destruct Hcases as [(-> & _ & Htr) | [(-> & _ & Htr & token & Hin & Hne) |
                     [(-> & _ & Htr & Hst) | [(-> & _ & Htr & Hst & Hdisk) |
                      (-> & _ & Htr & Hst & Hdisk)]]]];
    rewrite Htr; try rewrite Hst; try rewrite Hdisk; simpl.
  - split; [done | by intros [[=] _]].
  - split; [done|]. intros [_ [[= Hone] | [[= Hnil] _]]].
    + by destruct (not_both_invalid_and_deleted _ _ Hin Hne).
    + rewrite Hnil in Hin. by apply not_elem_of_empty in Hin.
  - split; [|done]. intros _. split; [done | by left].
  - split; [|done]. intros _. split; [done | by right].
  - split; [done|]. intros [_ [[= Hone] | [_ [=]]]].
Qed.

(** X12. A failing git is not told from an untracked file.  [check=False]
    lets any exit status through, and only [== 0] is tested: when
    [ls-files] ends with a non-zero status, whichever, and the diff prints
    nothing but whitespace, whatever its own exit status, [main] returns 0
    if the file is on disk and 3 if not. *)
Theorem failing_git_is_untracked (w : world) :
  returncode (git_reply w LS_FILES) ≠ 0 →
  Forall (λ c, is_space c = true) (stdout (git_reply w DIFF_CACHED)) →
  value main w = Return (if plan_on_disk w then 0 else 3)
  ∧ written (effects main w)
    = (if plan_on_disk w then [] else [MSG_MISSING]).
Proof.
  intros Hrc%Z.eqb_neq Hblank%spec_status_codes_blank.
  assert (¬ (∅ ∖ {[lit "D"]} ≠ (∅ : gset str))) as Hvalid
    by (intros H; apply H, no_invalid_status; by left).
  pose proof (not_elem_of_empty (C:=gset str) (lit "D")) as HD.
  from_run. rewrite Hrc, Hblank. pick_branch.
  by destruct (plan_on_disk w).
Qed.

Lemma failing_git_is_untracked_witness :
  let fatal := {| returncode := 128; stdout := [];
                  stderr := lit "fatal: not a git repository" |} in
  let w := {| git_reply := λ _, fatal; plan_on_disk := true |} in
  value main w = Return 0 ∧ written (effects main w) = [].
Proof.
  intros fatal w. apply (failing_git_is_untracked w).
  - discriminate.
  - constructor.
Defined.

(* ===================================================================== *)
(** ** Lines of the output and pieces of [splitlines] *)
(* ===================================================================== *)

Example lf_lines_two : 
  lf_lines two_line_output
  = [lit "D" ++ [TAB] ++ PLAN_NAME; lit "M" ++ [TAB] ++ PLAN_NAME; []].
Proof. reflexivity. Qed.

Example lf_lines_separator :
  lf_lines line_separator_output
  = [lit "D" ++ [LINE_SEPARATOR] ++ lit "A" ++ [TAB] ++ PLAN_NAME; []].
Proof. reflexivity. Qed.

Example splitlines_separator :
  splitlines line_separator_output
  = [lit "D"; lit "A" ++ [TAB] ++ PLAN_NAME].
Proof. reflexivity. Qed.

Section LinesAndPieces.

Implicit Types (s rest line piece : str) (c d : char).

Lemma lf_lines_ne s : lf_lines s ≠ [].
Proof.
  destruct s as [|c rest]; simpl; [done|].
  destruct (c =? LF)%N; [done|]. by destruct (lf_lines rest).
Qed.

(** [lf_lines] cuts at the LFs and loses nothing: the lines hold no LF, and
    joined by LF they are the text again. *)
Lemma join_lf_lines s : join_lf (lf_lines s) = s.
Proof.
  induction s as [|c rest IH]; [done|].
  pose proof (lf_lines_ne rest) as Hne. simpl.
  destruct (c =? LF)%N eqn:Hc.
  - apply N.eqb_eq in Hc as ->. simpl.
    destruct (lf_lines rest) as [|line lines]; [done|]. by rewrite IH.
  - destruct (lf_lines rest) as [|line lines]; [done|].
    simpl in *. destruct lines; simpl; by rewrite <- IH.
Qed.

Lemma lf_lines_no_lf s : Forall (Forall (λ c, c ≠ LF)) (lf_lines s).
Proof.
  induction s as [|c rest IH]; simpl; [by repeat constructor|].
  destruct (c =? LF)%N eqn:Hc; [by constructor|].
  apply N.eqb_neq in Hc.
  destruct (lf_lines rest) as [|line lines]; [by repeat constructor|].
  inversion IH; subst. constructor; [by constructor | done].
Qed.















End LinesAndPieces.

(* ===================================================================== *)
(** ** The staged statuses and the lines of the output *)
(* ===================================================================== *)



